(** * confgenerator/filter: the filter facade and the stage emission engine

    A shallow embedding of [confgenerator/filter/filter.go].  Go strings
    are byte strings ([string]), [map[string]string] and
    [map[string]*Filter] are finite maps ([gmap string _]), slices are
    lists, and a [*Filter] is a [Filter] record: a nil pointer is not a
    Filter, and the one place where the code can meet one (a lookup in
    the filter map) is modelled with [option]. *)

From Stdlib Require Import String Ascii List.
From stdpp Require Import base option list gmap strings pretty.

Set Warnings "-register-all".

Local Open Scope string_scope.
Local Open Scope list_scope.

(** ** Characters that cannot be written inside a string literal *)

Definition newline : string := String (ascii_of_nat 10) EmptyString.
Definition dquote : string := String (ascii_of_nat 34) EmptyString.

(** ** Package [strings] of the Go library *)

Module gostrings.

(** [strings.ReplaceAll s old new] for a one-byte [old], the only form in
    which the package calls it: the non-overlapping occurrences of a
    single byte are the occurrences of that byte, left to right. *)
Fixpoint ReplaceAll (s : string) (old : ascii) (new : string) : string :=
  match s with
  | EmptyString => EmptyString
  | String c rest =>
      if decide (c = old) then new +:+ ReplaceAll rest old new
      else String c (ReplaceAll rest old new)
  end.

(** [strings.Join]. *)
Fixpoint Join (elems : list string) (sep : string) : string :=
  match elems with
  | [] => EmptyString
  | [s] => s
  | s :: rest => s +:+ sep +:+ Join rest sep
  end.

(** Occurrence of a byte in a string. *)
Fixpoint occurs (c : ascii) (s : string) : Prop :=
  match s with
  | EmptyString => False
  | String d rest => d = c ∨ occurs c rest
  end.

(** Letters and digits of ASCII. *)
Definition alphanumeric (c : ascii) : bool :=
  let n := nat_of_ascii c in
  (Nat.leb 48 n && Nat.leb n 57) || (Nat.leb 65 n && Nat.leb n 90)
  || (Nat.leb 97 n && Nat.leb n 122).

End gostrings.

(** ** Package [fluentbit]: the stage descriptor *)

Module fluentbit.

(** [fluentbit.Component], with the two fields the package fills in. *)
Record Component := mkComponent {
  Kind : string;
  Config : gmap string string
}.

End fluentbit.

Import fluentbit.

(** ** Package [internal/ast]: the expression tree *)

Module ast.

(** Modelled from the spec: [ast.Target], the field path of a
    restriction; the source only names the type. *)
Definition Target : Type := list string.

(** Modelled from the spec: [ast.Restriction].  The source reads its
    fields [Operator] and [LHS]; the literal is the third component of a
    FieldRestriction in the data model. *)
Record Restriction := mkRestriction {
  Operator : string;
  LHS : Target;
  RHS : string
}.

(** Modelled from the spec: the values behind the interface
    [ast.Expression], a tagged union over the four node kinds.  The source
    shows [ast.Disjunction] to be a slice of expressions. *)
Inductive Expression : Type :=
| Restr (r : Restriction)
| Negation (e : Expression)
| Conjunction (es : list Expression)
| Disjunction (es : list Expression).

(** The two methods of the interface [ast.Expression] that the package
    calls.  Their bodies live in [internal/ast]; the engine is verified
    for every implementation. *)
Class Compiler := {
  Components : Expression → string → string → list Component;
  FluentConfig : Expression → string → string → list Component * string
}.

(** *** The compiler of section 4.1 *)

Definition field_text (t : Target) : string :=
  "record" +:+ String.concat EmptyString
    (map (fun k => "[" +:+ dquote +:+ k +:+ dquote +:+ "]") t).

Definition restriction_text (r : Restriction) : string :=
  "(" +:+ field_text (LHS r) +:+ " " +:+ Operator r +:+ " "
      +:+ dquote +:+ RHS r +:+ dquote +:+ ")".

Definition sub_prefix (prefix : string) (i : nat) : string :=
  prefix +:+ "_" +:+ pretty i.

(** Modelled from the spec: the per-node compile operation of
    [internal/ast] (section 4.1).  A field restriction emits no stage and
    a direct comparison; a negation passes its child's stages through and
    negates the text; a conjunction or disjunction compiles each child
    under its own sub-prefix, concatenates the stages in child order and
    joins the texts with the logical operator.  The spec leaves the
    textual encoding of the script open; the rendering here is the
    plainest one. *)
Fixpoint compile (e : Expression) (tag prefix : string)
  : list Component * string :=
  let children :=
    fix children (es : list Expression) (i : nat)
      : list Component * list string :=
      match es with
      | [] => ([], [])
      | c :: rest =>
          let '(cs, s) := compile c tag (sub_prefix prefix i) in
          let '(css, ss) := children rest (S i) in
          (cs ++ css, s :: ss)
      end in
  match e with
  | Restr r => ([], restriction_text r)
  | Negation c =>
      let '(cs, s) := compile c tag prefix in (cs, "(not " +:+ s +:+ ")")
  | Conjunction es =>
      let '(cs, ss) := children es 0 in
      (cs, "(" +:+ gostrings.Join ss " and " +:+ ")")
  | Disjunction es =>
      let '(cs, ss) := children es 0 in
      (cs, "(" +:+ gostrings.Join ss " or " +:+ ")")
  end.

(** Modelled from the spec: [Components] yields the stage list of the
    compile operation and [FluentConfig] the stage list with the text. *)
Definition spec_compiler : Compiler := {|
  Components e tag key := (compile e tag key).1;
  FluentConfig e tag key := compile e tag key
|}.

End ast.

(** ** Package [filter] *)

Module filter.

Import ast.

(** The value an empty interface holds after a successful parse, as far
    as the two type assertions of the package can tell: a value whose
    dynamic type implements [ast.Expression], or anything else ([Other],
    which includes the nil interface). *)
Inductive Attrib (Other : Type) : Type :=
| IsExpression (e : Expression)
| NotExpression (o : Other).

Arguments IsExpression {Other} e.
Arguments NotExpression {Other} o.

(** Go's [error] values of the two constructors: the parser's own error,
    handed on as it is, or the result of [fmt.Errorf] (format and
    argument are kept apart, the formatting verbs are not interpreted). *)
Inductive error (Other ParseError : Type) : Type :=
| FromParser (err : ParseError)
| Errorf (format : string) (arg : Attrib Other).

Arguments FromParser {Other ParseError} err.
Arguments Errorf {Other ParseError} format arg.

(** A Go result pair [(value, error)] of which exactly one side is set. *)
Inductive result (A E : Type) : Type :=
| Ok (a : A)
| Err (e : E).

Arguments Ok {A E} a.
Arguments Err {A E} e.

(** [type Member struct { ast.Target }] *)
Record Member := mkMember { Member_Target : Target }.

(** [type Filter struct { expr ast.Expression }] *)
Record Filter := mkFilter { expr : Expression }.

Section Constructors.

(** The generated lexer and parser, [parser.NewParser().Parse
    (lexer.NewLexer([]byte(s)))], are collaborators outside the package. *)
Context {Other ParseError : Type}.
Variable Parse : string → result (Attrib Other) ParseError.

Definition NewMember (m : string) : result Member (error Other ParseError) :=
  match Parse m with
  | Err err => Err (FromParser err)
  | Ok out =>
      match out with
      | IsExpression (Restr r) =>
          if decide (Operator r ≠ "GLOBAL")
          then Err (Errorf "not a field: %#v" out)
          else Ok (mkMember (LHS r))
      | _ => Err (Errorf "not a field: %#v" out)
      end
  end.

Definition NewFilter (f : string) : result Filter (error Other ParseError) :=
  match Parse f with
  | Err err => Err (FromParser err)
  | Ok out =>
      match out with
      | IsExpression out' => Ok (mkFilter out')
      | NotExpression _ => Err (Errorf "not an expression: %+v" out)
      end
  end.

End Constructors.

(** [MatchesAny]: the loop appends each filter's expression to [d]. *)
Definition MatchesAny (filters : list Filter) : Filter :=
  let d := fold_left (fun d f => d ++ [expr f]) filters [] in
  mkFilter (Disjunction d).

(** The stages that the engine itself emits. *)
Definition nest_stage (tag : string) : Component :=
  mkComponent "FILTER"
    {[ "Name" := "nest"; "Match" := tag; "Operation" := "nest";
       "Nest_under" := "record"; "Wildcard" := "*" ]}.

Definition lift_stage (tag : string) : Component :=
  mkComponent "FILTER"
    {[ "Name" := "nest"; "Match" := tag; "Operation" := "lift";
       "Nested_under" := "record" ]}.

Definition grep_stage (tag parity match_ : string) : Component :=
  mkComponent "FILTER"
    {[ "Name" := "grep"; "Match" := tag; parity := match_ +:+ " 1" ]}.

Definition modify_stage (tag match_ : string) : Component :=
  mkComponent "FILTER"
    {[ "Name" := "modify"; "Match" := tag; "Remove_wildcard" := match_ ]}.

(** The value of the local [match] of [innerComponents] and of
    [AllComponents]: both compute
    [fmt.Sprintf("__match_%s", strings.ReplaceAll(tag, ".", "_"))]. *)
Definition match_name (tag : string) : string :=
  "__match_" +:+ gostrings.ReplaceAll tag "."%char "_".

(** The snippet that [AllFluentConfig] writes after the declarations. *)
Definition cleanup_loop : string :=
  newline
  +:+ "for k, v in pairs(record) do" +:+ newline
  +:+ "  if string.match(k, " +:+ dquote +:+ "^__match_.+" +:+ dquote
  +:+ ") then" +:+ newline
  +:+ "    record[k] = nil" +:+ newline
  +:+ "  end" +:+ newline
  +:+ "end" +:+ newline.

(** [for k := range filters]: Go visits every key of the map once, in an
    order the language leaves open and varies from one loop to the next.
    [range_keys m vars] says that [vars] is one of the slices the first
    loop of [AllFluentConfig] can build. *)
Definition range_keys {V : Type} (m : gmap string V) (vars : list string)
  : Prop :=
  NoDup vars ∧ ∀ k, k ∈ vars ↔ is_Some (m !! k).

Section Engine.

Context {compiler : Compiler}.

Definition innerFluentConfig (f : Filter) (tag prefix : string)
  : list Component * string :=
  ast.FluentConfig (expr f) tag prefix.

(** The second loop of [AllFluentConfig], from index [i] on, with the
    slice [c] and the builder [lua] as accumulators.  [filters[k]] of an
    absent key is a nil pointer, whose [expr] cannot be read: [None]. *)
Fixpoint AllFluentConfig_loop (tag : string) (filters : gmap string Filter)
    (vars : list string) (i : nat) (c : list Component) (lua : string)
  : option (list Component * string) :=
  match vars with
  | [] => Some (c, lua)
  | k :: vars' =>
      let prefix := "__match_" +:+ pretty i in
      match filters !! k with
      | None => None
      | Some filter =>
          let '(filterComponents, filterExpr) :=
            innerFluentConfig filter tag prefix in
          AllFluentConfig_loop tag filters vars' (S i)
            (c ++ filterComponents)
            (lua +:+ ("local " +:+ k +:+ " = " +:+ filterExpr +:+ newline))
      end
  end.

(** [AllFluentConfig] once the first loop has built [vars]. *)
Definition AllFluentConfig_from (vars : list string) (tag : string)
    (filters : gmap string Filter) : option (list Component * string) :=
  match AllFluentConfig_loop tag filters vars 0 [] EmptyString with
  | None => None
  | Some (c, lua) =>
      if decide (length c = 0) then Some ([], lua)
      else
        let out := [nest_stage tag] in
        let out := out ++ c in
        let out := out ++ [lift_stage tag] in
        Some (out, lua +:+ cleanup_loop)
  end.

(** [AllFluentConfig tag filters out]: the call can return [out]. *)
Definition AllFluentConfig (tag : string) (filters : gmap string Filter)
    (out : list Component * string) : Prop :=
  ∃ vars, range_keys filters vars
          ∧ AllFluentConfig_from vars tag filters = Some out.

Definition innerComponents (f : Filter) (tag : string) : list Component :=
  let match_ := match_name tag in
  ast.Components (expr f) tag match_.

Definition AllComponents (tag : string) (filters : list Filter)
    (isExclusionFilter : bool) : list Component :=
  let parity := if isExclusionFilter then "Exclude" else "Regex" in
  let c := [nest_stage tag] in
  let match_ := match_name tag in
  let c := fold_left (fun c filter => c ++ innerComponents filter tag)
             filters c in
  c ++ [grep_stage tag parity match_; modify_stage tag match_;
        lift_stage tag].

Definition Components (f : Filter) (tag : string) (isExclusionFilter : bool)
  : list Component :=
  AllComponents tag [f] isExclusionFilter.

End Engine.

(** *** Reading stage lists *)

(** A grouping stage: a [nest] filter whose operation is [nest]. *)
Definition is_grouping (c : Component) : bool :=
  bool_decide (Config c !! "Name" = Some "nest"
               ∧ Config c !! "Operation" = Some "nest").

(** An ungrouping stage: a [nest] filter whose operation is [lift]. *)
Definition is_ungrouping (c : Component) : bool :=
  bool_decide (Config c !! "Name" = Some "nest"
               ∧ Config c !! "Operation" = Some "lift").

(** The number of stages of a list that satisfy a test. *)
Definition count (p : Component → bool) (l : list Component) : nat :=
  length (List.filter p l).

End filter.

(** ** A stand-in implementation of the interface *)

Module standin.

Import ast.

(** An implementation of [ast.Expression]'s two methods that stands for
    no code of the repository: it serves to run the engine on inner stage
    lists that are not empty.  Every expression compiles to one [modify]
    stage that sets the key, and its text tests the key. *)
Definition set_key_stage (tag key : string) : Component :=
  mkComponent "FILTER"
    {[ "Name" := "modify"; "Match" := tag; "Set" := key +:+ " 1" ]}.

Definition key_test (key : string) : string :=
  "(record[" +:+ dquote +:+ key +:+ dquote +:+ "] ~= nil)".

Definition marking_compiler : Compiler := {|
  Components _ tag key := [set_key_stage tag key];
  FluentConfig _ tag key := ([set_key_stage tag key], key_test key)
|}.

End standin.

(** ** Inputs on which the statements below are run *)

Module samples.

Import ast filter.

(** The tree of [severity = "ERROR"]. *)
Definition severity_error : Filter :=
  mkFilter (Restr (mkRestriction "=" ["severity"] "ERROR")).

(** The tree of [severity = "INFO"]. *)
Definition severity_info : Filter :=
  mkFilter (Restr (mkRestriction "=" ["severity"] "INFO")).

(** The mapping [{a: severity = "ERROR", b: severity = "INFO"}]. *)
Definition named : gmap string Filter :=
  {[ "a" := severity_error; "b" := severity_info ]}.

(** A parser that knows three inputs: the bare field [severity], the
    comparison [severity = "ERROR"], and the empty text, for which it
    returns a value that is no expression; everything else is a syntax
    error. *)
Definition toy_Parse (s : string) : result (Attrib unit) string :=
  if decide (s = "severity")
  then Ok (IsExpression (Restr (mkRestriction "GLOBAL" ["severity"] EmptyString)))
  else if decide (s = "severity = " +:+ dquote +:+ "ERROR" +:+ dquote)
  then Ok (IsExpression (expr severity_error))
  else if decide (s = EmptyString) then Ok (NotExpression ())
  else Err "syntax error".

End samples.

(** ** What the engine's output is compared with *)

Module shape.

Import ast filter.

(** The key that carries the match variable in the [grep] stage. *)
Definition parity (isExclusionFilter : bool) : string :=
  if isExclusionFilter then "Exclude" else "Regex".

(** One line of the script: the declaration of a named boolean. *)
Definition declaration (k e : string) : string :=
  "local " +:+ k +:+ " = " +:+ e +:+ newline.

(** The declarations of the names [vars], each with its text, in order. *)
Fixpoint declarations (vars exprs : list string) : string :=
  match vars, exprs with
  | k :: vars', e :: exprs' => declaration k e +:+ declarations vars' exprs'
  | _, _ => EmptyString
  end.

(** The filters [fs] compiled one by one under the positional prefixes
    [__match_i], [__match_(i+1)], ... *)
Fixpoint compiled_from {compiler : Compiler} (tag : string) (i : nat)
    (fs : list Filter) : list (list Component * string) :=
  match fs with
  | [] => []
  | f :: fs' =>
      innerFluentConfig f tag ("__match_" +:+ pretty i)
      :: compiled_from tag (S i) fs'
  end.

(** A stage that is neither a grouping nor an ungrouping stage. *)
Definition plain_stage (c : Component) : Prop :=
  is_grouping c = false ∧ is_ungrouping c = false.

(** The byte that [match_name] puts where the tag has byte [c]. *)
Definition sanitized (c : ascii) : ascii :=
  if decide (c = "."%char) then "_"%char else c.

(** A [modify] filter: the only kind of stage that [innerComponents] is
    documented to return. *)
Definition modify_filter (c : Component) : Prop :=
  Config c !! "Name" = Some "modify".

End shape.

(** ** Measures and predicates for the further properties *)

Module derived.

Import ast filter.

(** The number of nodes of an expression. *)
Fixpoint nodes (e : Expression) : nat :=
  match e with
  | Restr _ => 1
  | Negation c => S (nodes c)
  | Conjunction es => S (sum_list_with nodes es)
  | Disjunction es => S (sum_list_with nodes es)
  end.

(** A stage of kind [FILTER] that selects the stream [tag]. *)
Definition scoped (tag : string) (c : Component) : Prop :=
  Kind c = "FILTER" ∧ Config c !! "Match" = Some tag.

End derived.

Import ast filter shape.

(** * Properties *)

(** ** Strings *)

Lemma append_cons (x : ascii) (a b : string) :
  String x a +:+ b = String x (a +:+ b).
Proof. reflexivity. Qed.

Lemma append_assoc (a b c : string) : (a +:+ b) +:+ c = a +:+ (b +:+ c).
Proof.
  induction a as [|x a IH]; [done|]. rewrite !append_cons. by f_equal.
Qed.

Lemma append_nil_r (a : string) : a +:+ EmptyString = a.
Proof.
  induction a as [|x a IH]; [done|]. rewrite append_cons. by f_equal.
Qed.

Lemma occurs_append (c : ascii) (a b : string) :
  gostrings.occurs c (a +:+ b) ↔ gostrings.occurs c a ∨ gostrings.occurs c b.
Proof.
  induction a as [|x a IH]; [simpl; tauto|].
  rewrite append_cons. simpl. rewrite IH. tauto.
Qed.

Lemma ReplaceAll_dot_cons (c : ascii) (tag : string) :
  gostrings.ReplaceAll (String c tag) "."%char "_"
  = String (sanitized c) (gostrings.ReplaceAll tag "."%char "_").
Proof.
  unfold sanitized. simpl. by destruct (decide (c = "."%char)).
Qed.

Lemma ReplaceAll_dot_get (tag : string) (i : nat) :
  String.get i (gostrings.ReplaceAll tag "."%char "_")
  = sanitized <$> String.get i tag.
Proof.
  revert i. induction tag as [|c tag IH]; intros i; [done|].
  rewrite ReplaceAll_dot_cons. destruct i; simpl; [done | apply IH].
Qed.

Lemma ReplaceAll_dot_length (tag : string) :
  String.length (gostrings.ReplaceAll tag "."%char "_") = String.length tag.
Proof.
  induction tag as [|c tag IH]; [done|].
  rewrite ReplaceAll_dot_cons. simpl. by rewrite IH.
Qed.

Lemma ReplaceAll_dot_free (tag : string) :
  ¬ gostrings.occurs "."%char (gostrings.ReplaceAll tag "."%char "_").
Proof.
  induction tag as [|c tag IH]; [simpl; tauto|].
  rewrite ReplaceAll_dot_cons. simpl. intros [H|H]; [|tauto].
  unfold sanitized in H. destruct (decide (c = "."%char)); [discriminate|done].
Qed.

Lemma ReplaceAll_dot_keeps (c : ascii) (tag : string) :
  c ≠ "."%char → gostrings.occurs c tag →
  gostrings.occurs c (gostrings.ReplaceAll tag "."%char "_").
Proof.
  intros Hc. induction tag as [|d tag IH]; [done|].
  rewrite ReplaceAll_dot_cons. simpl. intros [->|H]; [left | right; auto].
  unfold sanitized. by rewrite decide_False.
Qed.

(** ** Stage lists *)

Lemma fold_left_append {A B : Type} (g : A → list B) (l : list A)
    (acc : list B) :
  fold_left (fun c x => c ++ g x) l acc = acc ++ concat (map g l).
Proof.
  revert acc. induction l as [|x l IH]; intros acc; simpl.
  - by rewrite app_nil_r.
  - by rewrite IH, app_assoc.
Qed.

Section EngineFacts.

Context {compiler : Compiler}.

Lemma AllComponents_unfold (tag : string) (filters : list Filter)
    (ex : bool) :
  AllComponents tag filters ex
  = [nest_stage tag]
    ++ concat (map (fun f => innerComponents f tag) filters)
    ++ [grep_stage tag (parity ex) (match_name tag);
        modify_stage tag (match_name tag)]
    ++ [lift_stage tag].
Proof.
  unfold AllComponents. rewrite fold_left_append.
  by destruct ex.
Qed.

End EngineFacts.

Lemma nest_stage_grouping (tag : string) :
  is_grouping (nest_stage tag) = true ∧ is_ungrouping (nest_stage tag) = false.
Proof.
  unfold is_grouping, is_ungrouping, nest_stage; simpl. split.
  - apply bool_decide_eq_true. by simplify_map_eq.
  - apply bool_decide_eq_false. simplify_map_eq. intros [_ ?]; done.
Qed.

Lemma lift_stage_ungrouping (tag : string) :
  is_ungrouping (lift_stage tag) = true ∧ is_grouping (lift_stage tag) = false.
Proof.
  unfold is_grouping, is_ungrouping, lift_stage; simpl. split.
  - apply bool_decide_eq_true. by simplify_map_eq.
  - apply bool_decide_eq_false. simplify_map_eq. intros [_ ?]; done.
Qed.

Lemma grep_stage_plain (tag par m : string) : plain_stage (grep_stage tag par m).
Proof.
  unfold plain_stage, is_grouping, is_ungrouping, grep_stage; simpl.
  split; apply bool_decide_eq_false; rewrite lookup_insert_eq;
    intros [? _]; done.
Qed.

Lemma modify_stage_plain (tag m : string) : plain_stage (modify_stage tag m).
Proof.
  unfold plain_stage, is_grouping, is_ungrouping, modify_stage; simpl.
  split; apply bool_decide_eq_false; rewrite lookup_insert_eq;
    intros [? _]; done.
Qed.

Lemma count_app (p : Component → bool) (l1 l2 : list Component) :
  count p (l1 ++ l2) = count p l1 + count p l2.
Proof. unfold count. by rewrite List.filter_app, length_app. Qed.

Lemma count_plain_grouping (l : list Component) :
  Forall plain_stage l → count is_grouping l = 0 ∧ count is_ungrouping l = 0.
Proof.
  unfold count. induction 1 as [|c l [Hg Hu] _ [IHg IHu]]; simpl; [done|].
  by rewrite Hg, Hu.
Qed.

(** ** The compile operation of section 4.1 emits no stage *)

(** Induction on expressions whose children sit in lists. *)
Lemma Expression_nested_ind (P : Expression → Prop) :
  (∀ r, P (Restr r)) →
  (∀ e, P e → P (Negation e)) →
  (∀ es, Forall P es → P (Conjunction es)) →
  (∀ es, Forall P es → P (Disjunction es)) →
  ∀ e, P e.
Proof.
  intros Hr Hn Hc Hd. fix IH 1. intros [r|e|es|es].
  - apply Hr.
  - apply Hn, IH.
  - apply Hc. induction es as [|c es IHes]; constructor; [apply IH | exact IHes].
  - apply Hd. induction es as [|c es IHes]; constructor; [apply IH | exact IHes].
Qed.

Ltac children_no_stage es IH :=
  match goal with
  | |- context [?children es 0] =>
      let H := fresh "H" in
      assert (H : ∀ i, (children es i).1 = []);
      [ induction IH as [|? ? Hc _ IHes]; intros i; [done|];
        simpl; rewrite (surjective_pairing (compile _ _ _)), Hc;
        specialize (IHes (S i));
        match goal with
        | |- context [children ?l (S i)] =>
            rewrite (surjective_pairing (children l (S i))), IHes
        end; done
      | specialize (H 0); by destruct (children es 0) ]
  end.

Lemma compile_no_stage (e : Expression) :
  ∀ tag prefix, (compile e tag prefix).1 = [].
Proof.
  induction e as [r|c IH|es IH|es IH] using Expression_nested_ind;
    intros tag prefix; simpl.
  - done.
  - specialize (IH tag prefix). by destruct (compile c tag prefix).
  - children_no_stage es IH.
  - children_no_stage es IH.
Qed.

(** Under the compile operation of section 4.1 every inner stage list of
    the engine is empty, hence free of grouping and ungrouping stages. *)
Lemma spec_compiler_inner_plain (tag : string) (filters : list Filter) :
  Forall plain_stage
    (concat (map (fun f => innerComponents (compiler := spec_compiler) f tag)
               filters)).
Proof.
  induction filters as [|f filters IH]; [constructor|].
  change (Forall plain_stage
            ((compile (expr f) tag (match_name tag)).1
             ++ concat (map (fun f => innerComponents
                                        (compiler := spec_compiler) f tag)
                          filters))).
  by rewrite compile_no_stage.
Qed.

(** ** Counting the envelope *)

Lemma modify_filter_plain (c : Component) : modify_filter c → plain_stage c.
Proof.
  unfold modify_filter, plain_stage, is_grouping, is_ungrouping. intros H.
  split; apply bool_decide_eq_false; rewrite H; by intros [[=] _].
Qed.

Lemma count_envelope_plus (tag : string) (inner : list Component) :
  count is_grouping ([nest_stage tag] ++ inner ++ [lift_stage tag])
  = 1 + count is_grouping inner
  ∧ count is_ungrouping ([nest_stage tag] ++ inner ++ [lift_stage tag])
    = 1 + count is_ungrouping inner.
Proof.
  destruct (nest_stage_grouping tag) as [Hn1 Hn2].
  destruct (lift_stage_ungrouping tag) as [Hl1 Hl2].
  rewrite !count_app.
  generalize (count is_grouping inner) (count is_ungrouping inner).
  intros a b. unfold count; simpl.
  rewrite Hn1, Hn2, Hl1, Hl2. simpl. lia.
Qed.

Lemma count_stages_plus (tag par m : string) (inner : list Component) :
  count is_grouping
    ([nest_stage tag] ++ inner
     ++ [grep_stage tag par m; modify_stage tag m] ++ [lift_stage tag])
  = 1 + count is_grouping inner
  ∧ count is_ungrouping
      ([nest_stage tag] ++ inner
       ++ [grep_stage tag par m; modify_stage tag m] ++ [lift_stage tag])
    = 1 + count is_ungrouping inner.
Proof.
  destruct (nest_stage_grouping tag) as [Hn1 Hn2].
  destruct (lift_stage_ungrouping tag) as [Hl1 Hl2].
  destruct (grep_stage_plain tag par m) as [Hg1 Hg2].
  destruct (modify_stage_plain tag m) as [Hm1 Hm2].
  rewrite !count_app.
  generalize (count is_grouping inner) (count is_ungrouping inner).
  intros a b. unfold count; simpl.
  rewrite Hn1, Hn2, Hl1, Hl2, Hg1, Hg2, Hm1, Hm2. simpl. lia.
Qed.

Lemma lookup_after_inner {A : Type} (x : A) (l t : list A) (k : nat) :
  (x :: l ++ t) !! S (k + length l) = t !! k.
Proof. simpl. rewrite lookup_app_r by lia. f_equal. lia. Qed.

(** ** The stage emission engine: [Components] and [AllComponents] *)

Section AllComponentsProps.

Context {compiler : Compiler}.

(** C9. With an empty list of filters, and for either value of the
    exclusion flag, [AllComponents] returns the full shape: the grouping
    stage, the grep stage, the field-removal stage and the ungrouping
    stage, in this order; the result is never the empty list. *)
Theorem AllComponents_no_filters (tag : string) (ex : bool) :
  AllComponents tag [] ex
  = [nest_stage tag;
     grep_stage tag (parity ex) (match_name tag);
     modify_stage tag (match_name tag);
     lift_stage tag]
  ∧ AllComponents tag [] ex ≠ []
  ∧ is_grouping (nest_stage tag) = true
  ∧ is_ungrouping (lift_stage tag) = true
  ∧ Config (grep_stage tag (parity ex) (match_name tag)) !! "Name"
    = Some "grep"
  ∧ Config (modify_stage tag (match_name tag)) !! "Remove_wildcard"
    = Some (match_name tag).
Proof.
  rewrite AllComponents_unfold. simpl.
  split_and!.
  - done.
  - done.
  - apply nest_stage_grouping.
  - apply lift_stage_ungrouping.
  - apply lookup_insert_eq.
  - by simplify_map_eq.
Qed.

(** C10. [f.Components(tag, flag)] is [AllComponents(tag, [f], flag)]:
    the same stage list, which is the grouping stage, the inner stages of
    [f], the grep stage, the field-removal stage and the ungrouping
    stage. *)
Theorem Components_is_AllComponents_singleton (f : Filter) (tag : string)
    (ex : bool) :
  filter.Components f tag ex = AllComponents tag [f] ex
  ∧ filter.Components f tag ex
    = [nest_stage tag] ++ innerComponents f tag
      ++ [grep_stage tag (parity ex) (match_name tag);
          modify_stage tag (match_name tag);
          lift_stage tag].
Proof.
  split; [reflexivity|].
  unfold filter.Components. rewrite AllComponents_unfold. simpl.
  by rewrite app_nil_r.
Qed.

(** C4. For every tag, list of filters and value of the exclusion flag,
    whatever [internal/ast] does, the list returned by [AllComponents] is
    not empty; it starts with the grouping (nest) stage of the tag and
    ends with the ungrouping (lift) stage of the same tag; the grep
    stage, which refers to the match variable under [Regex] or [Exclude],
    and the field-removal stage, which removes the match variable, stand
    right after all inner stages and right before the ungrouping stage.
    The engine itself puts exactly one grouping and exactly one
    ungrouping stage around the inner stages; the inner stages being
    modify filters, as [innerComponents] documents, the list holds
    exactly one of each; so it does for every list of filters under the
    compile operation of section 4.1. *)
Theorem AllComponents_envelope (tag : string) (filters : list Filter)
    (ex : bool) :
  let inner := concat (map (fun f => innerComponents f tag) filters) in
  let out := AllComponents tag filters ex in
  let variable := "__match_" +:+ gostrings.ReplaceAll tag "."%char "_" in
  let nest :=
    mkComponent "FILTER"
      {[ "Name" := "nest"; "Match" := tag; "Operation" := "nest";
         "Nest_under" := "record"; "Wildcard" := "*" ]} in
  let grep :=
    mkComponent "FILTER"
      {[ "Name" := "grep"; "Match" := tag;
         (if ex then "Exclude" else "Regex") := variable +:+ " 1" ]} in
  let modify :=
    mkComponent "FILTER"
      {[ "Name" := "modify"; "Match" := tag;
         "Remove_wildcard" := variable ]} in
  let lift :=
    mkComponent "FILTER"
      {[ "Name" := "nest"; "Match" := tag; "Operation" := "lift";
         "Nested_under" := "record" ]} in
  out ≠ []
  ∧ out = [nest] ++ inner ++ [grep; modify] ++ [lift]
  ∧ head out = Some nest
  ∧ last out = Some lift
  ∧ out !! (1 + length inner) = Some grep
  ∧ out !! (2 + length inner) = Some modify
  ∧ out !! (3 + length inner) = Some lift
  ∧ length out = 4 + length inner
  ∧ is_grouping nest = true
  ∧ is_ungrouping lift = true
  ∧ Config nest !! "Match" = Some tag
  ∧ Config lift !! "Match" = Some tag
  ∧ Config grep !! "Name" = Some "grep"
  ∧ Config grep !! (if ex then "Exclude" else "Regex")
    = Some (variable +:+ " 1")
  ∧ Config modify !! "Name" = Some "modify"
  ∧ Config modify !! "Remove_wildcard" = Some variable
  ∧ count is_grouping out = 1 + count is_grouping inner
  ∧ count is_ungrouping out = 1 + count is_ungrouping inner
  ∧ (Forall modify_filter inner →
     count is_grouping out = 1 ∧ count is_ungrouping out = 1)
  ∧ count is_grouping
      (AllComponents (compiler := spec_compiler) tag filters ex) = 1
  ∧ count is_ungrouping
      (AllComponents (compiler := spec_compiler) tag filters ex) = 1.
Proof.
  intros inner out variable nest grep modify lift.
  assert (Hnest : nest = nest_stage tag) by reflexivity.
  assert (Hgrep : grep = grep_stage tag (parity ex) (match_name tag))
    by reflexivity.
  assert (Hmodify : modify = modify_stage tag (match_name tag))
    by reflexivity.
  assert (Hlift : lift = lift_stage tag) by reflexivity.
  assert (Hout : out = [nest] ++ inner ++ [grep; modify] ++ [lift]).
  { subst out. rewrite AllComponents_unfold. by subst. }
  clearbody nest grep modify lift out.
  destruct (count_stages_plus tag (parity ex) (match_name tag) inner)
    as [Hc1 Hc2].
  assert (Hspec1 := AllComponents_unfold (compiler := spec_compiler)
                      tag filters ex).
  destruct (count_stages_plus tag (parity ex) (match_name tag)
              (concat (map (fun f => innerComponents
                                       (compiler := spec_compiler) f tag)
                         filters))) as [Hs1 Hs2].
  destruct (count_plain_grouping _ (spec_compiler_inner_plain tag filters))
    as [Hp1 Hp2].
  subst. split_and!.
  - done.
  - done.
  - done.
  - rewrite !app_assoc. apply last_snoc.
  - exact (lookup_after_inner (nest_stage tag) inner [_; _; _] 0).
  - exact (lookup_after_inner (nest_stage tag) inner [_; _; _] 1).
  - exact (lookup_after_inner (nest_stage tag) inner [_; _; _] 2).
  - rewrite !length_app. simpl. lia.
  - apply nest_stage_grouping.
  - apply lift_stage_ungrouping.
  - by simplify_map_eq.
  - by simplify_map_eq.
  - apply lookup_insert_eq.
  - unfold grep_stage; simpl. destruct ex; by simplify_map_eq.
  - apply lookup_insert_eq.
  - by simplify_map_eq.
  - exact Hc1.
  - exact Hc2.
  - intros Hmod.
    destruct (count_plain_grouping inner
                (Forall_impl _ _ _ Hmod modify_filter_plain)) as [Hi1 Hi2].
    rewrite Hc1, Hc2, Hi1, Hi2. done.
  - rewrite Hspec1, Hs1, Hp1. done.
  - rewrite Hspec1, Hs2, Hp2. done.
Qed.

(** C5. For every tag and list of filters, the lists returned with the
    exclusion flag false and true have the same stages before and after
    the grep stage, and the two grep stages have the same kind and the
    same configuration up to one key: the entries [Name] and [Match] are
    shared, the flag-false stage adds [Regex] and the flag-true stage
    adds [Exclude], both with the same value. *)
Theorem AllComponents_parity (tag : string) (filters : list Filter) :
  let before :=
    [nest_stage tag] ++ concat (map (fun f => innerComponents f tag) filters) in
  let after := [modify_stage tag (match_name tag); lift_stage tag] in
  let shared : gmap string string := {[ "Name" := "grep"; "Match" := tag ]} in
  let value := match_name tag +:+ " 1" in
  AllComponents tag filters false
  = before ++ [mkComponent "FILTER" (<["Regex" := value]> shared)] ++ after
  ∧ AllComponents tag filters true
    = before ++ [mkComponent "FILTER" (<["Exclude" := value]> shared)] ++ after
  ∧ shared !! "Regex" = None
  ∧ shared !! "Exclude" = None
  ∧ length (AllComponents tag filters false)
    = length (AllComponents tag filters true).
Proof.
  intros before after shared value.
  assert (Hgrep : ∀ par, par = "Regex" ∨ par = "Exclude" →
            grep_stage tag par (match_name tag)
            = mkComponent "FILTER" (<[par := value]> shared)).
  { intros par Hpar. unfold grep_stage, shared. f_equal.
    rewrite <- insert_empty.
    rewrite (insert_insert_ne _ "Match" par) by (destruct Hpar; by subst).
    by rewrite (insert_insert_ne _ "Name" par) by (destruct Hpar; by subst). }
  rewrite !AllComponents_unfold. simpl parity.
  rewrite !(Hgrep _) by auto.
  split_and!.
  - reflexivity.
  - reflexivity.
  - by simplify_map_eq.
  - by simplify_map_eq.
  - by rewrite !length_app.
Qed.

End AllComponentsProps.

(** ** The scenario [severity = "ERROR"] on the stream [app.log] *)

Lemma Components_length {compiler : Compiler} (f : Filter) (tag : string)
    (ex : bool) :
  length (filter.Components f tag ex) = 4 + length (innerComponents f tag).
Proof.
  unfold filter.Components. rewrite AllComponents_unfold.
  simpl. rewrite app_nil_r, !length_app. simpl. lia.
Qed.

(** C3, as stated, fails: whatever [internal/ast] does, the stage list of
    the filter [severity = "ERROR"] on [app.log] cannot both hold zero
    inner stages and have exactly 5 entries; the engine adds four stages
    to the inner ones. *)
Lemma Components_scenario_not_five :
  ¬ ∃ compiler : Compiler,
      innerComponents (compiler := compiler) samples.severity_error "app.log"
      = []
      ∧ length (filter.Components (compiler := compiler)
                  samples.severity_error "app.log" false) = 5.
Proof.
  intros (compiler & Hinner & Hlen).
  rewrite Components_length, Hinner in Hlen. simpl in Hlen. lia.
Qed.

(** C3, amended. Whatever [internal/ast] does, the filter
    [severity = "ERROR"] compiled for [app.log] in inclusion mode yields,
    in this order, the grouping stage, the inner stages that the
    comparison compiles to under [__match_app_log], the grep stage whose
    [Regex] key holds [__match_app_log 1], the field-removal stage for
    [__match_app_log] and the ungrouping stage: four entries more than
    the inner stages.  The list has exactly 5 entries exactly when the
    comparison contributes one inner stage. *)
Theorem Components_scenario_shape (compiler : Compiler) :
  let out := filter.Components (compiler := compiler)
               samples.severity_error "app.log" false in
  let inner := @ast.Components compiler
                 (Restr (mkRestriction "=" ["severity"] "ERROR"))
                 "app.log" "__match_app_log" in
  out
  = [mkComponent "FILTER"
       {[ "Name" := "nest"; "Match" := "app.log"; "Operation" := "nest";
          "Nest_under" := "record"; "Wildcard" := "*" ]}]
    ++ inner
    ++ [mkComponent "FILTER"
          {[ "Name" := "grep"; "Match" := "app.log";
             "Regex" := "__match_app_log 1" ]};
        mkComponent "FILTER"
          {[ "Name" := "modify"; "Match" := "app.log";
             "Remove_wildcard" := "__match_app_log" ]};
        mkComponent "FILTER"
          {[ "Name" := "nest"; "Match" := "app.log"; "Operation" := "lift";
             "Nested_under" := "record" ]}]
  ∧ innerComponents (compiler := compiler) samples.severity_error "app.log"
    = inner
  ∧ length out = 4 + length inner
  ∧ (length out = 5 ↔ length inner = 1).
Proof.
  intros out inner.
  assert (Hlen : length out = 4 + length inner)
    by (subst out; apply Components_length).
  split_and!.
  - subst out inner. unfold filter.Components.
    rewrite AllComponents_unfold. simpl. by rewrite app_nil_r.
  - reflexivity.
  - exact Hlen.
  - rewrite Hlen. lia.
Qed.

(** The amended C3 run with the stand-in compiler, under which the
    comparison compiles to one [modify] stage: the list has 5 entries. *)
Lemma Components_scenario_shape_witness :
  length (@ast.Components standin.marking_compiler
            (Restr (mkRestriction "=" ["severity"] "ERROR"))
            "app.log" "__match_app_log") = 1
  ∧ length (filter.Components (compiler := standin.marking_compiler)
              samples.severity_error "app.log" false) = 5.
Proof.
  assert (H : length (@ast.Components standin.marking_compiler
                        (Restr (mkRestriction "=" ["severity"] "ERROR"))
                        "app.log" "__match_app_log") = 1) by reflexivity.
  split; [exact H|].
  exact (proj2 (proj2 (proj2 (proj2
           (Components_scenario_shape standin.marking_compiler)))) H).
Defined.

(** ** The match variable *)

(** C2, as stated, fails: the tag [a-b] holds the byte [-], which is
    neither a letter nor a digit, and the match variable that
    [AllComponents] writes into the field-removal stage for this tag is
    [__match_a-b], in which the byte still occurs. *)
Lemma match_name_keeps_dash :
  gostrings.alphanumeric "-"%char = false
  ∧ gostrings.occurs "-"%char "a-b"
  ∧ match_name "a-b" = "__match_a-b"
  ∧ gostrings.occurs "-"%char (match_name "a-b")
  ∧ AllComponents (compiler := spec_compiler) "a-b" [] false !! 2
    = Some (modify_stage "a-b" "__match_a-b")
  ∧ AllComponents (compiler := spec_compiler) "a-b" [] false !! 1
    = Some (grep_stage "a-b" "Regex" "__match_a-b").
Proof.
  split_and!; try reflexivity.
  - simpl. tauto.
  - vm_compute. tauto.
Qed.

(** C2, amended. For every tag, the match variable of [innerComponents]
    and [AllComponents] is [__match_] followed by the tag in which every
    byte [.] is replaced by [_] and every other byte, alphanumeric or
    not, is kept in place; so [.] does not occur in the part after the
    prefix, and any other byte of the tag does.  The inner stages are
    compiled under this name, the grep stage refers to it and the
    field-removal stage removes it. *)
Theorem match_name_replaces_dots {compiler : Compiler} (tag : string)
    (filters : list Filter) (ex : bool) :
  let sanitized_tag := gostrings.ReplaceAll tag "."%char "_" in
  match_name tag = "__match_" +:+ sanitized_tag
  ∧ String.length sanitized_tag = String.length tag
  ∧ (∀ i, String.get i sanitized_tag = sanitized <$> String.get i tag)
  ∧ ¬ gostrings.occurs "."%char sanitized_tag
  ∧ (∀ c, c ≠ "."%char → gostrings.occurs c tag →
          gostrings.occurs c (match_name tag))
  ∧ (∀ f, innerComponents f tag
          = ast.Components (expr f) tag (match_name tag))
  ∧ AllComponents tag filters ex
    = [nest_stage tag]
      ++ concat (map (fun f => ast.Components (expr f) tag (match_name tag))
                   filters)
      ++ [grep_stage tag (parity ex) (match_name tag);
          modify_stage tag (match_name tag)]
      ++ [lift_stage tag]
  ∧ Config (grep_stage tag (parity ex) (match_name tag)) !! parity ex
    = Some (match_name tag +:+ " 1")
  ∧ Config (modify_stage tag (match_name tag)) !! "Remove_wildcard"
    = Some (match_name tag).
Proof.
  intros sanitized_tag. split_and!.
  - reflexivity.
  - apply ReplaceAll_dot_length.
  - apply ReplaceAll_dot_get.
  - apply ReplaceAll_dot_free.
  - intros c Hc Hin. unfold match_name. apply occurs_append. right.
    by apply ReplaceAll_dot_keeps.
  - reflexivity.
  - apply AllComponents_unfold.
  - unfold grep_stage; simpl. destruct ex; by simplify_map_eq.
  - by simplify_map_eq.
Qed.

(** The amended C2 at the tag [a-b.c] and the byte [-]. *)
Lemma match_name_replaces_dots_witness :
  "-"%char ≠ "."%char
  ∧ gostrings.occurs "-"%char "a-b.c"
  ∧ gostrings.occurs "-"%char (match_name "a-b.c")
  ∧ match_name "a-b.c" = "__match_a-b_c".
Proof.
  assert (H1 : "-"%char ≠ "."%char) by discriminate.
  assert (H2 : gostrings.occurs "-"%char "a-b.c") by (simpl; tauto).
  split_and!; [exact H1 | exact H2 | | reflexivity].
  exact (proj1 (proj2 (proj2 (proj2 (proj2
    (match_name_replaces_dots (compiler := spec_compiler) "a-b.c" [] false)))))
    "-"%char H1 H2).
Defined.

(** The envelope theorem (C4) run with the stand-in compiler on the two
    sample filters, whose inner stages are two [modify] stages. *)
Lemma AllComponents_envelope_witness :
  let fs := [samples.severity_error; samples.severity_info] in
  let out := AllComponents (compiler := standin.marking_compiler)
               "app.log" fs true in
  Forall modify_filter
    (concat (map (fun f => innerComponents
                             (compiler := standin.marking_compiler)
                             f "app.log") fs))
  ∧ length out = 6
  ∧ count is_grouping out = 1
  ∧ count is_ungrouping out = 1
  ∧ head out = Some (nest_stage "app.log")
  ∧ last out = Some (lift_stage "app.log").
Proof.
  intros fs out.
  assert (H : Forall modify_filter
    (concat (map (fun f => innerComponents
                             (compiler := standin.marking_compiler)
                             f "app.log") fs))).
  { repeat constructor. }
  pose proof (AllComponents_envelope (compiler := standin.marking_compiler)
                "app.log" fs true)
    as (_ & _ & Hh & Hl & _ & _ & _ & Hlen & _ & _ & _ & _ & _ & _ & _ & _
        & _ & _ & Hcount & _).
  destruct (Hcount H) as [Hg Hu].
  split_and!; [exact H | exact Hlen | exact Hg | exact Hu | exact Hh | exact Hl].
Defined.

(** ** [MatchesAny] *)

Lemma concat_map_singleton {A B : Type} (g : A → B) (l : list A) :
  concat (map (fun x => [g x]) l) = map g l.
Proof. induction l as [|x l IH]; simpl; [done | by rewrite IH]. Qed.

(** C7. For every list of filters, in whatever order, [MatchesAny]
    returns the filter whose root is the disjunction of the filters'
    root expressions in input order: child [i] of the disjunction is the
    expression of filter [i], and there are as many children as filters.
    [MatchesAny] is a function of the list alone: it is defined without
    a compiler, and it returns a new filter. *)
Theorem MatchesAny_disjunction (filters : list Filter) :
  MatchesAny filters = mkFilter (Disjunction (map expr filters))
  ∧ ∃ d, expr (MatchesAny filters) = Disjunction d
         ∧ length d = length filters
         ∧ ∀ i, d !! i = expr <$> filters !! i.
Proof.
  assert (H : MatchesAny filters = mkFilter (Disjunction (map expr filters))).
  { unfold MatchesAny.
    by rewrite (fold_left_append (fun f => [expr f])), concat_map_singleton. }
  split; [exact H|].
  exists (map expr filters). rewrite H. split_and!.
  - reflexivity.
  - apply length_map.
  - intros i. apply (list_lookup_fmap expr).
Qed.

(** ** The constructors [NewFilter] and [NewMember] *)

Section ConstructorsProps.

Context {Other ParseError : Type}.
Variable Parse : string → result (Attrib Other) ParseError.

(** C8. [NewFilter] returns a filter exactly when the parse result is an
    expression, and then the filter wraps it; on any other parse result
    it returns the error built by [fmt.Errorf].  [NewMember] returns a
    member exactly when the parse result is a restriction whose operator
    is [GLOBAL], and then the member holds its field; on any other parse
    result it returns the error built by [fmt.Errorf].  When the parser
    fails, both return the parser's error unchanged.  Both constructors
    are functions of the text and the parser's answer alone. *)
Theorem constructors_classify (s : string) :
  (∀ flt, NewFilter Parse s = Ok flt
          ↔ ∃ e, Parse s = Ok (IsExpression e) ∧ flt = mkFilter e)
  ∧ (∀ o, Parse s = Ok (NotExpression o) →
          NewFilter Parse s
          = Err (Errorf "not an expression: %+v" (NotExpression o)))
  ∧ (∀ m, NewMember Parse s = Ok m
          ↔ ∃ r, Parse s = Ok (IsExpression (Restr r))
                 ∧ Operator r = "GLOBAL" ∧ m = mkMember (LHS r))
  ∧ (∀ out, Parse s = Ok out →
            (¬ ∃ r, out = IsExpression (Restr r) ∧ Operator r = "GLOBAL") →
            NewMember Parse s = Err (Errorf "not a field: %#v" out))
  ∧ (∀ err, Parse s = Err err →
            NewFilter Parse s = Err (FromParser err)
            ∧ NewMember Parse s = Err (FromParser err)).
Proof.
  unfold NewFilter, NewMember. split_and!.
  - intros flt. destruct (Parse s) as [[e|o]|err]; split.
    + intros [= <-]. by exists e.
    + intros (e' & [= ->] & ->). reflexivity.
    + discriminate.
    + intros (e' & [=] & _).
    + discriminate.
    + intros (e' & [=] & _).
  - intros o ->. reflexivity.
  - intros m. destruct (Parse s) as [[e|o]|err]; split.
    + destruct e as [r| | |]; try discriminate.
      destruct (decide (Operator r ≠ "GLOBAL")) as [Hne|Heq]; [discriminate|].
      intros [= <-]. exists r. split_and!; [done | | done].
      by destruct (decide (Operator r = "GLOBAL")).
    + intros (r & [= ->] & Hop & ->).
      destruct (decide (Operator r ≠ "GLOBAL")); [done | reflexivity].
    + discriminate.
    + intros (r & [=] & _).
    + discriminate.
    + intros (r & [=] & _).
  - intros out -> Hnot. destruct out as [e|o]; [|reflexivity].
    destruct e as [r| | |]; try reflexivity.
    destruct (decide (Operator r ≠ "GLOBAL")) as [Hne|Heq]; [reflexivity|].
    exfalso. apply Hnot. exists r. split; [done|].
    by destruct (decide (Operator r = "GLOBAL")).
  - intros err ->. by split.
Qed.

End ConstructorsProps.

(** The classification (C8) run with the toy parser: the bare field
    [severity] makes a member, the empty text makes no filter, and an
    unknown text hands the parser's error on. *)
Lemma constructors_classify_witness :
  NewMember samples.toy_Parse "severity" = Ok (mkMember ["severity"])
  ∧ NewFilter samples.toy_Parse EmptyString
    = Err (Errorf "not an expression: %+v" (NotExpression ()))
  ∧ NewMember samples.toy_Parse EmptyString
    = Err (Errorf "not a field: %#v" (NotExpression ()))
  ∧ NewFilter samples.toy_Parse "severity >" = Err (FromParser "syntax error").
Proof.
  split_and!.
  - apply (proj1 (proj2 (proj2 (constructors_classify samples.toy_Parse
                                  "severity")))).
    exists (mkRestriction "GLOBAL" ["severity"] EmptyString).
    split_and!; reflexivity.
  - apply (proj1 (proj2 (constructors_classify samples.toy_Parse EmptyString))).
    reflexivity.
  - apply (proj1 (proj2 (proj2 (proj2
             (constructors_classify samples.toy_Parse EmptyString))))).
    + reflexivity.
    + intros (r & [=] & _).
  - apply (proj2 (proj2 (proj2 (proj2
             (constructors_classify samples.toy_Parse "severity >"))))).
    reflexivity.
Defined.

(** ** [AllFluentConfig] *)

(** The keys of a map, listed as the map's own enumeration has them, are
    one of the orders that a [range] loop can take: a call always has an
    order to run with. *)
Lemma range_keys_exists {V : Type} (m : gmap string V) :
  ∃ vars, range_keys m vars.
Proof.
  exists (map_to_list m).*1. split.
  - apply NoDup_fst_map_to_list.
  - intros k. rewrite list_elem_of_fmap. split.
    + intros ([k' v] & -> & Hin). apply elem_of_map_to_list in Hin.
      simpl. by exists v.
    + intros [v Hv]. exists (k, v). split; [done|].
      by apply elem_of_map_to_list.
Qed.

Lemma range_keys_lookup {V : Type} (m : gmap string V) (vars : list string) :
  range_keys m vars → ∃ vs, Forall2 (fun k v => m !! k = Some v) vars vs.
Proof.
  intros [_ Hkeys].
  assert (H : ∀ k, k ∈ vars → is_Some (m !! k)) by (intros k; apply Hkeys).
  clear Hkeys. induction vars as [|k vars IH].
  - exists []. constructor.
  - destruct (H k) as [v Hv]; [left|].
    destruct IH as [vs Hvs]; [intros k' Hk'; apply H; by right|].
    exists (v :: vs). by constructor.
Qed.

(** Both orders of a map with two keys are orders of a [range] loop. *)
Lemma range_keys_two {V : Type} (k1 k2 : string) (v1 v2 : V) :
  k1 ≠ k2 →
  range_keys ({[ k1 := v1; k2 := v2 ]} : gmap string V) [k1; k2]
  ∧ range_keys ({[ k1 := v1; k2 := v2 ]} : gmap string V) [k2; k1].
Proof.
  intros Hne.
  assert (Hdom : ∀ k, is_Some (({[ k1 := v1; k2 := v2 ]} : gmap string V) !! k)
                      ↔ k = k1 ∨ k = k2).
  { intros k. rewrite lookup_insert_is_Some, lookup_singleton_is_Some.
    split; [intros [-> | [_ ->]]; auto | intros [-> | ->]; auto]. }
  split; split.
  - apply NoDup_cons. split; [|apply NoDup_singleton].
    by intros ->%list_elem_of_singleton.
  - intros k. by rewrite Hdom, elem_of_cons, list_elem_of_singleton.
  - apply NoDup_cons. split; [|apply NoDup_singleton].
    by intros ->%list_elem_of_singleton.
  - intros k. rewrite Hdom, elem_of_cons, list_elem_of_singleton. tauto.
Qed.

Section AllFluentConfigProps.

Context {compiler : Compiler}.

Lemma AllFluentConfig_loop_spec (tag : string) (filters : gmap string Filter)
    (vars : list string) (fs : list Filter) :
  Forall2 (fun k f => filters !! k = Some f) vars fs →
  ∀ i c lua,
    AllFluentConfig_loop tag filters vars i c lua
    = Some (c ++ concat (compiled_from tag i fs).*1,
            lua +:+ declarations vars (compiled_from tag i fs).*2).
Proof.
  induction 1 as [|k f vars fs Hk _ IH]; intros i c lua; simpl.
  - by rewrite app_nil_r, append_nil_r.
  - rewrite Hk.
    destruct (innerFluentConfig f tag ("__match_" +:+ pretty i)) as [fc fe].
    rewrite IH. simpl. unfold declaration.
    by rewrite <- app_assoc, !append_assoc.
Qed.

Lemma AllFluentConfig_from_spec (tag : string) (filters : gmap string Filter)
    (vars : list string) (fs : list Filter) :
  Forall2 (fun k f => filters !! k = Some f) vars fs →
  let inner := concat (compiled_from tag 0 fs).*1 in
  let script := declarations vars (compiled_from tag 0 fs).*2 in
  AllFluentConfig_from vars tag filters
  = Some (if decide (length inner = 0) then ([], script)
          else ([nest_stage tag] ++ inner ++ [lift_stage tag],
                script +:+ cleanup_loop)).
Proof.
  intros Hfs inner script. unfold AllFluentConfig_from.
  rewrite (AllFluentConfig_loop_spec _ _ _ _ Hfs). simpl.
  fold inner. fold script. by destruct (decide (length inner = 0)).
Qed.

(** Every order of the keys lets the call return. *)
Lemma AllFluentConfig_from_total (tag : string)
    (filters : gmap string Filter) (vars : list string) :
  range_keys filters vars → is_Some (AllFluentConfig_from vars tag filters).
Proof.
  intros Hkeys. destruct (range_keys_lookup _ _ Hkeys) as [fs Hfs].
  rewrite (AllFluentConfig_from_spec _ _ _ _ Hfs). eauto.
Qed.

Lemma declarations_foldr (vars : list string)
    (parts : list (list Component * string)) :
  declarations vars parts.*2
  = foldr (fun kp rest =>
             "local " +:+ kp.1 +:+ " = " +:+ kp.2.2
             +:+ String "010"%char EmptyString +:+ rest)
      EmptyString (zip vars parts).
Proof.
  revert parts. induction vars as [|k vars IH]; intros [|p parts]; try done.
  cbn [fmap list_fmap declarations zip zip_with foldr fst snd].
  rewrite IH. unfold declaration. by rewrite !append_assoc.
Qed.

(** C6. For every tag and mapping from names to filters, the call
    returns, and whatever it returns comes from an order [vars] of the
    names under which the filters are compiled with the positional
    prefixes.  If the concatenation of the filters' inner stage lists is
    empty, the result has no stage and the script holds the lines
    [local name = text] only, one per name.  If it is not empty, the
    stage list is the grouping stage, all inner stages and the ungrouping
    stage (one envelope for all filters, which adds exactly one grouping
    and one ungrouping stage to the inner ones), and the script is the
    same lines followed by the loop of the source, byte for byte: over
    all pairs of [record], a field whose name matches [^__match_.+] is
    set to nil.  Inner stages being neither grouping nor ungrouping
    stages, the list holds exactly one of each. *)
Theorem AllFluentConfig_envelope_or_script (tag : string)
    (filters : gmap string Filter) :
  (∃ out, AllFluentConfig tag filters out)
  ∧ ∀ out, AllFluentConfig tag filters out →
      ∃ vars fs,
        range_keys filters vars
        ∧ Forall2 (fun k f => filters !! k = Some f) vars fs
        ∧ let parts := compiled_from tag 0 fs in
          let inner := concat parts.*1 in
          let nl := String "010"%char EmptyString in
          let dq := String "034"%char EmptyString in
          let script :=
            foldr (fun kp rest =>
                     "local " +:+ kp.1 +:+ " = " +:+ kp.2.2 +:+ nl +:+ rest)
              EmptyString (zip vars parts) in
          let loop :=
            nl
            +:+ "for k, v in pairs(record) do" +:+ nl
            +:+ "  if string.match(k, " +:+ dq +:+ "^__match_.+" +:+ dq
            +:+ ") then" +:+ nl
            +:+ "    record[k] = nil" +:+ nl
            +:+ "  end" +:+ nl
            +:+ "end" +:+ nl in
          let nest :=
            mkComponent "FILTER"
              {[ "Name" := "nest"; "Match" := tag; "Operation" := "nest";
                 "Nest_under" := "record"; "Wildcard" := "*" ]} in
          let lift :=
            mkComponent "FILTER"
              {[ "Name" := "nest"; "Match" := tag; "Operation" := "lift";
                 "Nested_under" := "record" ]} in
          length parts = length vars
          ∧ (inner = [] → out = ([], script))
          ∧ (inner ≠ [] →
             out = ([nest] ++ inner ++ [lift], script +:+ loop)
             ∧ is_grouping nest = true
             ∧ is_ungrouping lift = true
             ∧ count is_grouping out.1 = 1 + count is_grouping inner
             ∧ count is_ungrouping out.1 = 1 + count is_ungrouping inner
             ∧ (Forall plain_stage inner →
                count is_grouping out.1 = 1 ∧ count is_ungrouping out.1 = 1)).
Proof.
  split.
  - destruct (range_keys_exists filters) as [vars Hkeys].
    destruct (AllFluentConfig_from_total tag filters vars Hkeys) as [out Hout].
    exists out, vars. by split.
  - intros out (vars & Hkeys & Hout).
    destruct (range_keys_lookup _ _ Hkeys) as [fs Hfs].
    exists vars, fs. split; [done|]. split; [done|].
    intros parts inner nl dq script loop nest lift.
    rewrite (AllFluentConfig_from_spec _ _ _ _ Hfs) in Hout.
    fold parts in Hout. fold inner in Hout.
    rewrite declarations_foldr in Hout. fold nl script in Hout.
    assert (Hloop : cleanup_loop = loop) by reflexivity.
    assert (Hnest : nest_stage tag = nest) by reflexivity.
    assert (Hlift : lift_stage tag = lift) by reflexivity.
    destruct (count_envelope_plus tag inner) as [Hc1 Hc2].
    destruct (nest_stage_grouping tag) as [Hn _].
    destruct (lift_stage_ungrouping tag) as [Hl _].
    rewrite Hloop, Hnest, Hlift in *.
    clearbody loop nest lift script.
    injection Hout as <-. split_and!.
    + rewrite (Forall2_length _ _ _ Hfs). unfold parts. generalize 0.
      clear. induction fs as [|f fs IH]; intros i; simpl; [done|].
      by rewrite IH.
    + intros ->. reflexivity.
    + intros Hne. rewrite decide_False by (by destruct inner).
      cbn [fst].
      change (nest :: inner ++ [lift]) with ([nest] ++ inner ++ [lift]).
      split_and!.
      * reflexivity.
      * exact Hn.
      * exact Hl.
      * exact Hc1.
      * exact Hc2.
      * intros Hplain.
        destruct (count_plain_grouping inner Hplain) as [Hi1 Hi2].
        by rewrite Hc1, Hc2, Hi1, Hi2.
Qed.

(** C1 fails on the code.  With the names [a] and [b], whatever the tag,
    the two filters and the compiler, the call can return two results
    whose script texts differ: in one, the script starts with the
    declaration of [a], compiled under [__match_0]; in the other, it
    starts with the declaration of [b], compiled under [__match_0].  The
    slice [vars] is filled by a [range] over the map and is iterated as
    it is. *)
Theorem AllFluentConfig_order_dependent (tag : string) (f1 f2 : Filter) :
  let filters : gmap string Filter := {[ "a" := f1; "b" := f2 ]} in
  ∃ o1 o2 rest1 rest2,
    AllFluentConfig tag filters o1
    ∧ AllFluentConfig tag filters o2
    ∧ o1.2 = declaration "a" (innerFluentConfig f1 tag "__match_0").2 +:+ rest1
    ∧ o2.2 = declaration "b" (innerFluentConfig f2 tag "__match_0").2 +:+ rest2
    ∧ o1.2 ≠ o2.2.
Proof.
  intros filters.
  destruct (range_keys_two "a" "b" f1 f2) as [Hab Hba]; [done|].
  assert (Ha : filters !! "a" = Some f1) by (by subst filters; simplify_map_eq).
  assert (Hb : filters !! "b" = Some f2) by (by subst filters; simplify_map_eq).
  assert (Hfab : Forall2 (fun k f => filters !! k = Some f) ["a"; "b"] [f1; f2])
    by (by repeat constructor).
  assert (Hfba : Forall2 (fun k f => filters !! k = Some f) ["b"; "a"] [f2; f1])
    by (by repeat constructor).
  pose proof (AllFluentConfig_from_spec tag filters _ _ Hfab) as H1.
  pose proof (AllFluentConfig_from_spec tag filters _ _ Hfba) as H2.
  simpl in H1, H2.
  set (e1 := (innerFluentConfig f1 tag ("__match_" +:+ pretty 0)).2) in *.
  set (e2 := (innerFluentConfig f2 tag ("__match_" +:+ pretty 1)).2) in *.
  set (e1' := (innerFluentConfig f1 tag ("__match_" +:+ pretty 1)).2) in *.
  set (e2' := (innerFluentConfig f2 tag ("__match_" +:+ pretty 0)).2) in *.
  match type of H1 with _ = Some ?o => set (o1 := o) in * end.
  match type of H2 with _ = Some ?o => set (o2 := o) in * end.
  assert (Hs1 : ∃ rest, o1.2 = declaration "a" e1 +:+ rest).
  { subst o1. case_decide; simpl.
    - by eexists.
    - eexists. by rewrite append_assoc. }
  assert (Hs2 : ∃ rest, o2.2 = declaration "b" e2' +:+ rest).
  { subst o2. case_decide; simpl.
    - by eexists.
    - eexists. by rewrite append_assoc. }
  destruct Hs1 as [rest1 Hs1]. destruct Hs2 as [rest2 Hs2].
  exists o1, o2, rest1, rest2. split_and!.
  - by exists ["a"; "b"].
  - by exists ["b"; "a"].
  - exact Hs1.
  - exact Hs2.
  - rewrite Hs1, Hs2. intros Heq.
    apply (f_equal (String.get 6)) in Heq. vm_compute in Heq. discriminate.
Qed.

End AllFluentConfigProps.

(** The theorem on [AllFluentConfig] (C6) run with the stand-in compiler
    on the sample mapping: the order [a], [b] returns the envelope around
    the two inner stages and the two declarations followed by the cleanup
    loop. *)
Lemma AllFluentConfig_envelope_or_script_witness :
  let out :=
    ([nest_stage "app.log";
      standin.set_key_stage "app.log" "__match_0";
      standin.set_key_stage "app.log" "__match_1";
      lift_stage "app.log"],
     declaration "a" (standin.key_test "__match_0")
     +:+ declaration "b" (standin.key_test "__match_1")
     +:+ cleanup_loop) in
  AllFluentConfig (compiler := standin.marking_compiler)
    "app.log" samples.named out
  ∧ ∃ vars fs,
      range_keys samples.named vars
      ∧ Forall2 (fun k f => samples.named !! k = Some f) vars fs.
Proof.
  intros out.
  assert (H : AllFluentConfig (compiler := standin.marking_compiler)
                "app.log" samples.named out).
  { exists ["a"; "b"]. split; [by apply range_keys_two | by vm_compute]. }
  split; [exact H|].
  destruct (proj2 (AllFluentConfig_envelope_or_script
                     (compiler := standin.marking_compiler)
                     "app.log" samples.named) out H)
    as (vars & fs & Hkeys & Hfs & _).
  by exists vars, fs.
Defined.

(** ** The scenarios of [AllFluentConfig] on the sample mapping *)

(** With the compile operation of section 4.1 both sample filters have no
    inner stage: the call can return no stage and the two declarations,
    [a] first, and it can return no stage and the two declarations, [b]
    first; no cleanup loop in either. *)
Example AllFluentConfig_named_scripts :
  let cmp (lit : string) :=
    "(record[" +:+ dquote +:+ "severity" +:+ dquote +:+ "] = "
    +:+ dquote +:+ lit +:+ dquote +:+ ")" in
  AllFluentConfig (compiler := spec_compiler) "app.log" samples.named
    ([], "local a = " +:+ cmp "ERROR" +:+ newline
         +:+ "local b = " +:+ cmp "INFO" +:+ newline)
  ∧ AllFluentConfig (compiler := spec_compiler) "app.log" samples.named
      ([], "local b = " +:+ cmp "INFO" +:+ newline
           +:+ "local a = " +:+ cmp "ERROR" +:+ newline).
Proof.
  split.
  - exists ["a"; "b"]. split; [by apply range_keys_two | by vm_compute].
  - exists ["b"; "a"]. split; [by apply range_keys_two | by vm_compute].
Qed.

(** With the stand-in compiler the positional prefixes follow the order
    of the loop: [a] is compiled under [__match_0] in one run and under
    [__match_1] in the other. *)
Example AllFluentConfig_named_prefixes :
  AllFluentConfig_from (compiler := standin.marking_compiler)
    ["a"; "b"] "t" samples.named
  = Some ([nest_stage "t";
           standin.set_key_stage "t" "__match_0";
           standin.set_key_stage "t" "__match_1";
           lift_stage "t"],
          declaration "a" (standin.key_test "__match_0")
          +:+ declaration "b" (standin.key_test "__match_1")
          +:+ cleanup_loop)
  ∧ AllFluentConfig_from (compiler := standin.marking_compiler)
      ["b"; "a"] "t" samples.named
    = Some ([nest_stage "t";
             standin.set_key_stage "t" "__match_0";
             standin.set_key_stage "t" "__match_1";
             lift_stage "t"],
            declaration "b" (standin.key_test "__match_0")
            +:+ declaration "a" (standin.key_test "__match_1")
            +:+ cleanup_loop).
Proof. split; by vm_compute. Qed.

(** * Further properties of the package *)

Import derived.

(** ** [AllComponents]: size, composition and scope of the stage list *)

Section AllComponentsMore.

Context {compiler : Compiler}.

Lemma length_concat_Components (tag : string) (filters : list Filter)
    (ex : bool) :
  length (concat (map (fun f => filter.Components f tag ex) filters))
  = 4 * length filters
    + length (concat (map (fun f => innerComponents f tag) filters)).
Proof.
  induction filters as [|f filters IH]; [done|].
  cbn [map concat]. rewrite !length_app, IH, Components_length.
  cbn [length]. lia.
Qed.

Lemma length_concat_zero {A : Type} (ls : list (list A)) :
  length (concat ls) = 0 ↔ Forall (fun l => l = []) ls.
Proof.
  induction ls as [|l ls IH]; simpl.
  - split; [constructor | done].
  - rewrite length_app, Forall_cons, <- IH. destruct l; simpl.
    + split; [by split | by intros [_ ?]].
    + split; [lia | by intros [? _]].
Qed.

(** X1. [AllComponents] returns four stages more than the filters' inner
    stages: never fewer than four, and exactly four when and only when
    no filter has an inner stage.  Against the per-filter lists of
    [Components] put one after the other, the shared envelope saves four
    stages for every filter but one. *)
Theorem AllComponents_stage_count (tag : string) (filters : list Filter)
    (ex : bool) :
  let out := AllComponents tag filters ex in
  length out
  = 4 + length (concat (map (fun f => innerComponents f tag) filters))
  ∧ (4 ≤ length out)%nat
  ∧ (length out = 4 ↔ Forall (fun f => innerComponents f tag = []) filters)
  ∧ length out + 4 * length filters
    = 4 + length (concat (map (fun f => filter.Components f tag ex) filters)).
Proof.
  intros out.
  assert (Hlen : length out
            = 4 + length (concat (map (fun f => innerComponents f tag)
                                    filters))).
  { subst out. rewrite AllComponents_unfold, !length_app. simpl. lia. }
  split_and!.
  - exact Hlen.
  - lia.
  - rewrite Hlen.
    pose proof (length_concat_zero
                  (map (fun f => innerComponents f tag) filters)) as Hz.
    rewrite List.Forall_map in Hz. rewrite <- Hz. lia.
  - rewrite Hlen, length_concat_Components. lia.
Qed.

(** X2. The stage list of two filter lists put together is the stage
    list of the first without its last three stages (grep, field removal,
    ungrouping) followed by the stage list of the second without its
    first stage (grouping). *)
Theorem AllComponents_app (tag : string) (fs1 fs2 : list Filter) (ex : bool) :
  let out1 := AllComponents tag fs1 ex in
  let out2 := AllComponents tag fs2 ex in
  AllComponents tag (fs1 ++ fs2) ex
  = take (length out1 - 3) out1 ++ drop 1 out2.
Proof.
  intros out1 out2. subst out1 out2. rewrite !AllComponents_unfold.
  set (i1 := concat (map (fun f => innerComponents f tag) fs1)).
  set (i2 := concat (map (fun f => innerComponents f tag) fs2)).
  set (tl := [grep_stage tag (parity ex) (match_name tag);
              modify_stage tag (match_name tag)] ++ [lift_stage tag]).
  rewrite map_app, concat_app. fold i1 i2.
  change ([nest_stage tag] ++ i2 ++ tl) with (nest_stage tag :: (i2 ++ tl)).
  rewrite (app_assoc [nest_stage tag] i1 tl).
  rewrite take_app_length'.
  - cbn [drop]. by rewrite <- !app_assoc.
  - rewrite !length_app. simpl. lia.
Qed.

(** X3. Every stage that [AllComponents] adds around the inner stages is
    of kind [FILTER] and selects the given tag; so when the inner stages
    are of that kind and select the tag, every stage of the list does. *)
Theorem AllComponents_scoped (tag : string) (filters : list Filter)
    (ex : bool) :
  Forall (scoped tag)
    (concat (map (fun f => innerComponents f tag) filters)) →
  Forall (scoped tag) (AllComponents tag filters ex)
  ∧ scoped tag (nest_stage tag)
  ∧ scoped tag (grep_stage tag (parity ex) (match_name tag))
  ∧ scoped tag (modify_stage tag (match_name tag))
  ∧ scoped tag (lift_stage tag).
Proof.
  intros Hinner.
  assert (Hn : scoped tag (nest_stage tag)) by (split; by simplify_map_eq).
  assert (Hg : scoped tag (grep_stage tag (parity ex) (match_name tag))).
  { split; [done|]. unfold grep_stage; simpl.
    destruct ex; by simplify_map_eq. }
  assert (Hm : scoped tag (modify_stage tag (match_name tag)))
    by (split; by simplify_map_eq).
  assert (Hl : scoped tag (lift_stage tag)) by (split; by simplify_map_eq).
  split_and!; try assumption.
  rewrite AllComponents_unfold.
  repeat (apply Forall_app; split); try assumption.
  - by apply Forall_singleton.
  - by repeat apply Forall_cons_2.
  - by apply Forall_singleton.
Qed.

End AllComponentsMore.

(** The scope theorem (X3) run with the stand-in compiler on the two
    sample filters. *)
Lemma AllComponents_scoped_witness :
  let fs := [samples.severity_error; samples.severity_info] in
  Forall (scoped "app.log")
    (concat (map (fun f => innerComponents
                             (compiler := standin.marking_compiler)
                             f "app.log") fs))
  ∧ Forall (scoped "app.log")
      (AllComponents (compiler := standin.marking_compiler)
         "app.log" fs false).
Proof.
  intros fs.
  assert (H : Forall (scoped "app.log")
    (concat (map (fun f => innerComponents
                             (compiler := standin.marking_compiler)
                             f "app.log") fs))).
  { repeat constructor. }
  split; [exact H|].
  exact (proj1 (AllComponents_scoped (compiler := standin.marking_compiler)
                  "app.log" fs false H)).
Defined.

(** ** [AllComponents]: the order of the filters *)

Lemma concat_map_Permutation {A B : Type} (g : A → list B) (l1 l2 : list A) :
  l1 ≡ₚ l2 → concat (map g l1) ≡ₚ concat (map g l2).
Proof.
  induction 1 as [|x l1 l2 _ IH|x y l|l1 l2 l3 _ IH1 _ IH2]; simpl.
  - done.
  - by rewrite IH.
  - rewrite !app_assoc. by rewrite (Permutation_app_comm (g y) (g x)).
  - by rewrite IH1.
Qed.

Section AllComponentsOrder.

Context {compiler : Compiler}.

(** X4. Every filter is compiled under the same match variable, whatever
    its position: giving the same filters in another order only reorders
    the inner stages.  The two stage lists hold the same stages, have the
    same length, start with the same stage and end with the same three
    stages. *)
Theorem AllComponents_Permutation (tag : string) (fs1 fs2 : list Filter)
    (ex : bool) :
  fs1 ≡ₚ fs2 →
  let out1 := AllComponents tag fs1 ex in
  let out2 := AllComponents tag fs2 ex in
  out1 ≡ₚ out2
  ∧ length out1 = length out2
  ∧ head out1 = head out2
  ∧ drop (length out1 - 3) out1 = drop (length out2 - 3) out2.
Proof.
  intros Hperm out1 out2. subst out1 out2. rewrite !AllComponents_unfold.
  pose proof (concat_map_Permutation (fun f => innerComponents f tag)
                fs1 fs2 Hperm) as Hinner.
  set (i1 := concat (map (fun f => innerComponents f tag) fs1)) in *.
  set (i2 := concat (map (fun f => innerComponents f tag) fs2)) in *.
  set (tl := [grep_stage tag (parity ex) (match_name tag);
              modify_stage tag (match_name tag)] ++ [lift_stage tag]).
  assert (Hlen : length i1 = length i2) by (by apply Permutation_length).
  split_and!.
  - by rewrite Hinner.
  - rewrite !length_app. by rewrite Hlen.
  - reflexivity.
  - rewrite !(app_assoc [nest_stage tag] _ tl).
    rewrite !drop_app_length'; [done | |]; rewrite !length_app; simpl; lia.
Qed.

End AllComponentsOrder.

(** The theorem on the order of the filters (X4) run with the compile
    operation of section 4.1 on the two sample filters, swapped. *)
Lemma AllComponents_Permutation_witness :
  [samples.severity_error; samples.severity_info]
  ≡ₚ [samples.severity_info; samples.severity_error]
  ∧ AllComponents (compiler := spec_compiler) "app.log"
      [samples.severity_error; samples.severity_info] true
    ≡ₚ AllComponents (compiler := spec_compiler) "app.log"
         [samples.severity_info; samples.severity_error] true.
Proof.
  assert (H : [samples.severity_error; samples.severity_info]
              ≡ₚ [samples.severity_info; samples.severity_error])
    by apply perm_swap.
  split; [exact H|].
  exact (proj1 (AllComponents_Permutation (compiler := spec_compiler)
                  "app.log" _ _ true H)).
Defined.

(** ** [AllFluentConfig]: small maps and positional prefixes *)

Lemma range_keys_empty {V : Type} (vars : list string) :
  range_keys (∅ : gmap string V) vars ↔ vars = [].
Proof.
  split.
  - intros [_ Hkeys]. destruct vars as [|k vars]; [done|].
    destruct (lookup_empty_is_Some (A := V) k). apply Hkeys. by left.
  - intros ->. split; [constructor|].
    intros k. split; [by intros ?%elem_of_nil|].
    by intros ?%lookup_empty_is_Some.
Qed.

Lemma range_keys_singleton {V : Type} (k : string) (v : V)
    (vars : list string) :
  range_keys ({[ k := v ]} : gmap string V) vars ↔ vars = [k].
Proof.
  split.
  - intros [Hnodup Hkeys].
    assert (Hall : ∀ k', k' ∈ vars ↔ k' = k).
    { intros k'. rewrite Hkeys, lookup_singleton_is_Some. split; by intros ->. }
    destruct vars as [|a [|b vars]].
    + assert (Hk : k ∈ []) by (by apply Hall). by apply elem_of_nil in Hk.
    + f_equal. apply Hall. by left.
    + assert (a = k) as -> by (apply Hall; by left).
      assert (b = k) as -> by (apply Hall; right; by left).
      apply NoDup_cons in Hnodup as [Hnotin _]. destruct Hnotin. by left.
  - intros ->. split; [apply NoDup_singleton|].
    intros k'. rewrite list_elem_of_singleton, lookup_singleton_is_Some.
    split; by intros ->.
Qed.

Lemma range_keys_length {V : Type} (m : gmap string V) (vars : list string) :
  range_keys m vars → length vars = size m.
Proof.
  intros [Hnodup Hkeys].
  rewrite <- length_map_to_list, <- (length_fmap fst (map_to_list m)).
  apply Permutation_length, NoDup_Permutation;
    [done | apply NoDup_fst_map_to_list |].
  intros k. rewrite Hkeys, list_elem_of_fmap. split.
  - intros [v Hv]. exists (k, v). split; [done|].
    by apply elem_of_map_to_list.
  - intros ([k' v] & -> & Hin). apply elem_of_map_to_list in Hin.
    by exists v.
Qed.

Section AllFluentConfigMore.

Context {compiler : Compiler}.

Lemma compiled_from_lookup (tag : string) (fs : list Filter) :
  ∀ start i f,
    fs !! i = Some f →
    compiled_from tag start fs !! i
    = Some (innerFluentConfig f tag ("__match_" +:+ pretty (start + i))).
Proof.
  induction fs as [|g fs IH]; intros start i f Hi; [done|].
  destruct i as [|i]; simpl in *.
  - injection Hi as ->. by rewrite Nat.add_0_r.
  - replace (start + S i) with (S start + i) by lia. by apply IH.
Qed.

Lemma compiled_from_length (tag : string) (fs : list Filter) (start : nat) :
  length (compiled_from tag start fs) = length fs.
Proof.
  revert start. induction fs as [|g fs IH]; intros start; simpl; [done|].
  by rewrite IH.
Qed.

(** X5. On a map without names [AllFluentConfig] has one result only: no
    stage and the empty script, without the cleanup loop. *)
Theorem AllFluentConfig_no_names (tag : string)
    (out : list Component * string) :
  AllFluentConfig tag ∅ out ↔ out = ([], EmptyString).
Proof.
  split.
  - intros (vars & Hkeys & Hout). apply range_keys_empty in Hkeys as ->.
    by injection Hout as <-.
  - intros ->. exists []. split; [by apply range_keys_empty | done].
Qed.

(** X6. On a map with one name [AllFluentConfig] has one result only.
    The filter is compiled under [__match_0]; if it has no inner stage
    the result is no stage and the one declaration, otherwise the inner
    stages between the grouping and the ungrouping stage and the
    declaration followed by the cleanup loop. *)
Theorem AllFluentConfig_one_name (tag k : string) (f : Filter)
    (out : list Component * string) :
  AllFluentConfig tag {[ k := f ]} out
  ↔ out = (if decide ((innerFluentConfig f tag "__match_0").1 = [])
           then ([], declaration k (innerFluentConfig f tag "__match_0").2)
           else ([nest_stage tag] ++ (innerFluentConfig f tag "__match_0").1
                 ++ [lift_stage tag],
                 declaration k (innerFluentConfig f tag "__match_0").2
                 +:+ cleanup_loop)).
Proof.
  assert (Hfs : Forall2 (fun k' f' => ({[ k := f ]} : gmap string Filter) !! k'
                                       = Some f') [k] [f]).
  { repeat constructor. apply lookup_singleton_eq. }
  pose proof (AllFluentConfig_from_spec tag _ _ _ Hfs) as Hspec.
  cbn [compiled_from fmap list_fmap concat declarations fst snd] in Hspec.
  rewrite app_nil_r, append_nil_r in Hspec.
  change ("__match_" +:+ pretty 0) with "__match_0" in Hspec.
  set (c := (innerFluentConfig f tag "__match_0").1) in *.
  assert (Hres : AllFluentConfig_from [k] tag {[ k := f ]}
            = Some (if decide (c = [])
                    then ([], declaration k (innerFluentConfig f tag "__match_0").2)
                    else ([nest_stage tag] ++ c ++ [lift_stage tag],
                          declaration k (innerFluentConfig f tag "__match_0").2
                          +:+ cleanup_loop))).
  { rewrite Hspec. destruct c; by repeat case_decide. }
  split.
  - intros (vars & Hkeys & Hout). apply range_keys_singleton in Hkeys as ->.
    rewrite Hres in Hout. by injection Hout as <-.
  - intros ->. exists [k]. split; [by apply range_keys_singleton | done].
Qed.

(** X7. A call of [AllFluentConfig] that enumerates the names as [vars]
    runs its second loop once per name of the map and compiles the
    filter at position [i] under the prefix [__match_i]; two positions
    never share a prefix. *)
Theorem AllFluentConfig_positional_prefixes (tag : string)
    (filters : gmap string Filter) (vars : list string) (fs : list Filter) :
  range_keys filters vars →
  Forall2 (fun k f => filters !! k = Some f) vars fs →
  let parts := compiled_from tag 0 fs in
  length vars = size filters
  ∧ length parts = size filters
  ∧ AllFluentConfig_loop tag filters vars 0 [] EmptyString
    = Some (concat parts.*1, declarations vars parts.*2)
  ∧ (∀ i f, fs !! i = Some f →
            parts !! i
            = Some (innerFluentConfig f tag ("__match_" +:+ pretty i)))
  ∧ (∀ i j : nat, "__match_" +:+ pretty i = "__match_" +:+ pretty j → i = j).
Proof.
  intros Hkeys Hfs parts.
  pose proof (range_keys_length _ _ Hkeys) as Hlen.
  split_and!.
  - exact Hlen.
  - subst parts. rewrite compiled_from_length, <- Hlen.
    symmetry. by eapply Forall2_length.
  - by rewrite (AllFluentConfig_loop_spec _ _ _ _ Hfs).
  - intros i f Hi. subst parts. by rewrite (compiled_from_lookup _ _ 0 i f Hi).
  - intros i j Heq. apply (inj (String.app "__match_")) in Heq.
    by apply (inj pretty) in Heq.
Qed.

End AllFluentConfigMore.

(** The theorem on positional prefixes (X7) run with the stand-in
    compiler on the sample mapping, enumerated as [b], [a]. *)
Lemma AllFluentConfig_positional_prefixes_witness :
  range_keys samples.named ["b"; "a"]
  ∧ Forall2 (fun k f => samples.named !! k = Some f) ["b"; "a"]
      [samples.severity_info; samples.severity_error]
  ∧ length ["b"; "a"] = size samples.named
  ∧ compiled_from (compiler := standin.marking_compiler) "app.log" 0
      [samples.severity_info; samples.severity_error] !! 1
    = Some (innerFluentConfig (compiler := standin.marking_compiler)
              samples.severity_error "app.log" "__match_1").
Proof.
  assert (H1 : range_keys samples.named ["b"; "a"])
    by (by apply range_keys_two).
  assert (H2 : Forall2 (fun k f => samples.named !! k = Some f) ["b"; "a"]
                 [samples.severity_info; samples.severity_error])
    by (by repeat constructor).
  pose proof (AllFluentConfig_positional_prefixes
                (compiler := standin.marking_compiler)
                "app.log" samples.named _ _ H1 H2) as (Hlen & _ & _ & Hi & _).
  split_and!; [exact H1 | exact H2 | exact Hlen |].
  exact (Hi 1 samples.severity_error eq_refl).
Defined.

(** ** The constructors: where an error comes from, and how they relate *)

Section ConstructorsMore.

Context {Other ParseError : Type}.
Variable Parse : string → result (Attrib Other) ParseError.

(** X8. Both constructors return the parser's error exactly on the texts
    the parser rejects, and with the parser's own error.  An error that a
    constructor builds itself carries the constructor's format and the
    value the parser returned for the text. *)
Theorem constructors_error_origin (s : string) :
  (∀ err, NewMember Parse s = Err (FromParser err) ↔ Parse s = Err err)
  ∧ (∀ err, NewFilter Parse s = Err (FromParser err) ↔ Parse s = Err err)
  ∧ (∀ fmt arg, NewMember Parse s = Err (Errorf fmt arg) →
                fmt = "not a field: %#v" ∧ Parse s = Ok arg)
  ∧ (∀ fmt arg, NewFilter Parse s = Err (Errorf fmt arg) →
                fmt = "not an expression: %+v" ∧ Parse s = Ok arg).
Proof.
  unfold NewMember, NewFilter. split_and!.
  - intros err. destruct (Parse s) as [[e|o]|err'].
    + split; [|discriminate]. destruct e as [r| | |]; try discriminate.
      by destruct (decide (Operator r ≠ "GLOBAL")).
    + split; discriminate.
    + split; by intros [= ->].
  - intros err. destruct (Parse s) as [[e|o]|err'].
    + split; discriminate.
    + split; discriminate.
    + split; by intros [= ->].
  - intros fmt arg. destruct (Parse s) as [[e|o]|err'].
    + destruct e as [r| | |]; try (by intros [= <- <-]).
      destruct (decide (Operator r ≠ "GLOBAL")); [|discriminate].
      by intros [= <- <-].
    + by intros [= <- <-].
    + discriminate.
  - intros fmt arg. destruct (Parse s) as [[e|o]|err'].
    + discriminate.
    + by intros [= <- <-].
    + discriminate.
Qed.

(** X9. A restriction being an expression, every text from which
    [NewMember] makes a member also makes a filter with [NewFilter]: the
    filter wraps the [GLOBAL] restriction whose field the member holds.
    So a text that [NewFilter] rejects is rejected by [NewMember] too,
    and when [NewFilter] rejects the parser's value, [NewMember] rejects
    the same value. *)
Theorem NewMember_implies_NewFilter (s : string) :
  (∀ m, NewMember Parse s = Ok m →
        ∃ r, NewFilter Parse s = Ok (mkFilter (Restr r))
             ∧ Operator r = "GLOBAL" ∧ Member_Target m = LHS r)
  ∧ (∀ e, NewFilter Parse s = Err e → ∃ e', NewMember Parse s = Err e')
  ∧ (∀ fmt arg, NewFilter Parse s = Err (Errorf fmt arg) →
                NewMember Parse s = Err (Errorf "not a field: %#v" arg)).
Proof.
  unfold NewMember, NewFilter. split_and!.
  - intros m. destruct (Parse s) as [[e|o]|err']; try discriminate.
    destruct e as [r| | |]; try discriminate.
    destruct (decide (Operator r ≠ "GLOBAL")) as [Hne|Heq]; [discriminate|].
    intros [= <-]. exists r. split_and!; [done | | done].
    by destruct (decide (Operator r = "GLOBAL")).
  - intros e. destruct (Parse s) as [[e0|o]|err']; [discriminate | |];
      intros _; eauto.
  - intros fmt arg. destruct (Parse s) as [[e0|o]|err']; try discriminate.
    by intros [= <- <-].
Qed.

End ConstructorsMore.

(** The relation of the constructors (X9) run with the toy parser on the
    bare field [severity]. *)
Lemma NewMember_implies_NewFilter_witness :
  NewMember samples.toy_Parse "severity" = Ok (mkMember ["severity"])
  ∧ ∃ r, NewFilter samples.toy_Parse "severity" = Ok (mkFilter (Restr r))
         ∧ Operator r = "GLOBAL" ∧ ["severity"] = LHS r.
Proof.
  assert (H : NewMember samples.toy_Parse "severity"
              = Ok (mkMember ["severity"])) by reflexivity.
  split; [exact H|].
  exact (proj1 (NewMember_implies_NewFilter samples.toy_Parse "severity")
           (mkMember ["severity"]) H).
Defined.

(** ** [MatchesAny]: composition and growth *)

Lemma MatchesAny_unfold (filters : list Filter) :
  MatchesAny filters = mkFilter (Disjunction (map expr filters)).
Proof.
  unfold MatchesAny.
  by rewrite (fold_left_append (fun f => [expr f])), concat_map_singleton.
Qed.

Lemma map_expr_inj (fs1 fs2 : list Filter) :
  map expr fs1 = map expr fs2 → fs1 = fs2.
Proof.
  revert fs2. induction fs1 as [|[e1] fs1 IH]; intros [|[e2] fs2]; simpl;
    try done.
  intros [= -> Hrest]. f_equal. by apply IH.
Qed.

(** X10. [MatchesAny] keeps the filters apart and in order: the children
    for two lists put together are the children for the first followed by
    the children for the second; a filter that is itself a result of
    [MatchesAny] becomes one child, its own children are not merged into
    the new disjunction; and two lists give the same filter only when
    they are the same list. *)
Theorem MatchesAny_composition (fs1 fs2 : list Filter) :
  (∃ d1 d2, expr (MatchesAny fs1) = Disjunction d1
            ∧ expr (MatchesAny fs2) = Disjunction d2
            ∧ expr (MatchesAny (fs1 ++ fs2)) = Disjunction (d1 ++ d2))
  ∧ expr (MatchesAny (MatchesAny fs1 :: fs2))
    = Disjunction (Disjunction (map expr fs1) :: map expr fs2)
  ∧ (MatchesAny fs1 = MatchesAny fs2 ↔ fs1 = fs2).
Proof.
  split_and!.
  - exists (map expr fs1), (map expr fs2).
    rewrite !MatchesAny_unfold. simpl. by rewrite map_app.
  - by rewrite !MatchesAny_unfold.
  - split; [|by intros ->]. rewrite !MatchesAny_unfold.
    intros [= H]. by apply map_expr_inj.
Qed.

(** X11. The filter that [MatchesAny] returns has one node more than its
    inputs have together: it is larger than each of them, and so it is
    never one of the filters it was given, not even for a single
    filter. *)
Theorem MatchesAny_grows (filters : list Filter) :
  nodes (expr (MatchesAny filters))
  = S (sum_list_with (fun f => nodes (expr f)) filters)
  ∧ ∀ f, f ∈ filters →
         nodes (expr f) < nodes (expr (MatchesAny filters))
         ∧ MatchesAny filters ≠ f.
Proof.
  assert (Hn : nodes (expr (MatchesAny filters))
               = S (sum_list_with (fun f => nodes (expr f)) filters)).
  { rewrite MatchesAny_unfold. simpl. f_equal.
    induction filters as [|f filters IH]; simpl; [done | by rewrite IH]. }
  split; [exact Hn|].
  intros f Hin.
  assert (Hlt : nodes (expr f) < nodes (expr (MatchesAny filters))).
  { rewrite Hn. clear Hn.
    induction Hin as [f filters|f g filters _ IH]; simpl; lia. }
  split; [exact Hlt|]. intros Heq. rewrite Heq in Hlt. lia.
Qed.

(** ** The match variable: which tags share one *)

Lemma ReplaceAll_dot_id (tag : string) :
  ¬ gostrings.occurs "."%char tag →
  gostrings.ReplaceAll tag "."%char "_" = tag.
Proof.
  induction tag as [|c tag IH]; [done|]. simpl gostrings.occurs.
  intros Hno. rewrite ReplaceAll_dot_cons. unfold sanitized.
  rewrite decide_False by (intros ->; apply Hno; by left).
  f_equal. apply IH. intros H. apply Hno. by right.
Qed.

Lemma ReplaceAll_dot_changes (tag : string) :
  gostrings.occurs "."%char tag →
  gostrings.ReplaceAll tag "."%char "_" ≠ tag.
Proof.
  intros Hin Heq. apply (ReplaceAll_dot_free tag). by rewrite Heq.
Qed.

(** X12. Two tags get the same match variable exactly when they agree
    once every [.] is replaced by [_].  Replacing twice changes nothing,
    so a tag with a [.] shares its match variable with another tag, its
    own replaced form; a tag without [.] is used as it is, and two such
    tags never share a match variable. *)
Theorem match_name_sharing (tag1 tag2 : string) :
  (match_name tag1 = match_name tag2
   ↔ gostrings.ReplaceAll tag1 "."%char "_"
     = gostrings.ReplaceAll tag2 "."%char "_")
  ∧ match_name (gostrings.ReplaceAll tag1 "."%char "_") = match_name tag1
  ∧ (gostrings.occurs "."%char tag1 →
     gostrings.ReplaceAll tag1 "."%char "_" ≠ tag1)
  ∧ (¬ gostrings.occurs "."%char tag1 → match_name tag1 = "__match_" +:+ tag1)
  ∧ (¬ gostrings.occurs "."%char tag1 → ¬ gostrings.occurs "."%char tag2 →
     match_name tag1 = match_name tag2 → tag1 = tag2).
Proof.
  assert (Hiff : ∀ t1 t2, match_name t1 = match_name t2
                  ↔ gostrings.ReplaceAll t1 "."%char "_"
                    = gostrings.ReplaceAll t2 "."%char "_").
  { intros t1 t2. unfold match_name. split; [|by intros ->].
    apply (inj (String.app "__match_")). }
  split_and!.
  - apply Hiff.
  - apply Hiff. apply ReplaceAll_dot_id, ReplaceAll_dot_free.
  - apply ReplaceAll_dot_changes.
  - intros Hno. unfold match_name. by rewrite ReplaceAll_dot_id.
  - intros Hno1 Hno2 Heq. apply Hiff in Heq.
    by rewrite !ReplaceAll_dot_id in Heq.
Qed.

(** The sharing theorem (X12) at the tags [app.log] and [app_log]: the
    first has a [.], the second has none, and both get
    [__match_app_log]. *)
Lemma match_name_sharing_witness :
  gostrings.occurs "."%char "app.log"
  ∧ gostrings.ReplaceAll "app.log" "."%char "_" ≠ "app.log"
  ∧ match_name "app_log" = match_name "app.log"
  ∧ match_name "app_log" = "__match_app_log".
Proof.
  assert (H : gostrings.occurs "."%char "app.log") by (simpl; tauto).
  pose proof (match_name_sharing "app.log" "app_log") as (_ & Hid & Hch & _).
  split_and!; [exact H | exact (Hch H) | exact Hid | reflexivity].
Defined.
